(** * Design-pattern demonstrations: a shallow embedding and its properties

    The repository holds six self-contained TypeScript snippets (Singleton,
    Factory, Adapter, Decorator, Observer, Command).  Every method is
    embedded as a function of a small effect monad: a method may write a
    line on the console, read or assign the fields of the object it is
    called on, and throw.  State survives a throw, as it does in JavaScript.

    Besides the console, a world carries a history of the method calls that
    reached a receiver object.  No embedded method reads the history; it
    only lets a statement say which object was invoked with which argument,
    where the console text alone would not tell two objects apart.

    Class hierarchies are closed in every snippet, so an interface is the
    inductive type of its implementing classes and a method call dispatches
    by [match].  An object without fields is represented by its address. *)

From stdpp Require Import base decidable numbers list strings pretty.

Open Scope string_scope.
Open Scope list_scope.

(** ** The effect monad *)

Module JS.

(** What a [throw] carries.  [Error] is [new Error(message)]; [TypeError]
    is what the engine raises on a property read of [undefined] (its
    message is engine text and is not modelled). *)
Inductive Exception : Type :=
  | Error (message : string)
  | TypeError.

Inductive Completion (A : Type) : Type :=
  | Normal (value : A)
  | Throw (exn : Exception).
Arguments Normal {A} value.
Arguments Throw {A} exn.

(** An address: the identity of an object, what [===] and [!==] compare. *)
Definition Ref := nat.

(** The [number] type.  The snippets pass numbers around and print them in
    template literals; only the Decorator snippet computes with them.
    [literal] reads an integer literal of the source, [toString] is the
    conversion a template literal applies. *)
Class JSNumber (number : Type) : Type := {
  literal : Z -> number;
  toString : number -> string
}.

(** Integer-valued numbers of ordinary size (below 10^21 in magnitude, where
    JavaScript still prints every digit): the decimal digits, with a sign
    when negative. *)
#[global] Instance Z_number : JSNumber Z := {|
  literal := fun z => z;
  toString := fun z => pretty z
|}.

Record World (St E : Type) : Type := mkWorld {
  store : St;              (* the mutable fields of the snippet *)
  console : list string;   (* lines printed by console.log, oldest first *)
  calls : list E           (* history of method calls, oldest first *)
}.
Arguments mkWorld {St E} store console calls.
Arguments store {St E} w.
Arguments console {St E} w.
Arguments calls {St E} w.

Definition M (St E A : Type) : Type :=
  World St E -> Completion A * World St E.

Section Effects.
Context {St E : Type}.

Definition ret {A} (a : A) : M St E A := fun w => (Normal a, w).

Definition bind {A B} (m : M St E A) (k : A -> M St E B) : M St E B :=
  fun w =>
    match m w with
    | (Normal a, w') => k a w'
    | (Throw e, w') => (Throw e, w')
    end.

Definition throw {A} (e : Exception) : M St E A := fun w => (Throw e, w).

Definition console_log (line : string) : M St E unit :=
  fun w => (Normal tt, mkWorld (store w) (console w ++ [line]) (calls w)).

Definition called (ev : E) : M St E unit :=
  fun w => (Normal tt, mkWorld (store w) (console w) (calls w ++ [ev])).

Definition get : M St E St := fun w => (Normal (store w), w).

Definition put (s : St) : M St E unit :=
  fun w => (Normal tt, mkWorld s (console w) (calls w)).

(** [xs.forEach(f)]: the callback runs on the elements in index order; a
    throw in a callback ends the loop. *)
Fixpoint forEach {A} (xs : list A) (f : A -> M St E unit) : M St E unit :=
  match xs with
  | [] => ret tt
  | x :: rest => bind (f x) (fun _ => forEach rest f)
  end.

(** The outcome and the final world of a run. *)
Definition outcome {A} (m : M St E A) (w : World St E) : Completion A :=
  fst (m w).

Definition after {A} (m : M St E A) (w : World St E) : World St E :=
  snd (m w).

Definition returns {A} (m : M St E A) (w : World St E) : Prop :=
  exists a, outcome m w = Normal a.

End Effects.

#[global] Instance M_ret {St E} : MRet (M St E) := @ret St E.
#[global] Instance M_bind {St E} : MBind (M St E) :=
  fun A B k m => bind m k.

End JS.

Import JS.

(** ** Singleton: [DatabaseConnection] *)

Module Singleton.

(** A [DatabaseConnection] has no fields: an object of the class is its
    address. *)
Definition DatabaseConnection := Ref.

(** The static field and the allocator.  [instance] is [undefined] until
    first assigned; [next] is the address the next [new] returns, that is,
    the number of objects allocated so far. *)
Record Statics : Type := mkStatics {
  instance : option DatabaseConnection;
  next : Ref
}.

Inductive Call : Type :=
  | constructor_ (this : DatabaseConnection)
  | query_ (this : DatabaseConnection) (sql : string).

Abbreviation Eff := (M Statics Call).

(** [new DatabaseConnection()]: allocate, then run the constructor body. *)
Definition new_DatabaseConnection : Eff DatabaseConnection :=
  s ← get;
  let this := next s in
  put (mkStatics (instance s) (S (next s)));;
  called (constructor_ this);;
  console_log "New DatabaseConnection instance created.";;
  mret this.

(** [if (!instance) { instance = new DatabaseConnection(); } return instance;]
    An object reference is truthy, [undefined] is falsy. *)
Definition getInstance : Eff DatabaseConnection :=
  s ← get;
  match instance s with
  | None =>
      fresh ← new_DatabaseConnection;
      s' ← get;
      put (mkStatics (Some fresh) (next s'));;
      mret fresh
  | Some existing => mret existing
  end.

Definition query (this : DatabaseConnection) (sql : string) : Eff unit :=
  called (query_ this sql);;
  console_log ("Executing query: " +:+ sql).

(** [N] successive calls, results in call order. *)
Fixpoint getInstance_times (N : nat) : Eff (list DatabaseConnection) :=
  match N with
  | O => mret []
  | S n =>
      r ← getInstance;
      rs ← getInstance_times n;
      mret (r :: rs)
  end.

(** The program before its first statement. *)
Definition start : World Statics Call :=
  mkWorld (mkStatics None 0) [] [].

Definition is_constructor (c : Call) : bool :=
  match c with constructor_ _ => true | query_ _ _ => false end.

(** How many objects of the class a history has seen constructed. *)
Definition constructions (h : list Call) : nat :=
  length (filter (fun c => is_constructor c) h).

(** What the static field holds once [getInstance] has run: the cached
    object if there was one, the freshly allocated one otherwise. *)
Definition the_instance (w : World Statics Call) : DatabaseConnection :=
  match instance (store w) with
  | Some existing => existing
  | None => next (store w)
  end.

(** The number of constructor runs a first request costs in [w]. *)
Definition pending (w : World Statics Call) : nat :=
  match instance (store w) with
  | Some _ => 0
  | None => 1
  end.

(** The public operations of the class, for statements about sequences of
    calls: requesting the instance (the result is dropped) and running a
    query on a connection. *)
Inductive Op : Type :=
  | GetInstance
  | Query (this : DatabaseConnection) (sql : string).

Definition perform (op : Op) : Eff unit :=
  match op with
  | GetInstance => getInstance;; mret tt
  | Query this sql => query this sql
  end.

Definition is_request (op : Op) : bool :=
  match op with GetInstance => true | Query _ _ => false end.

(** 1 if the sequence asks for the instance at least once, 0 otherwise. *)
Definition requested (ops : list Op) : nat :=
  if existsb is_request ops then 1 else 0.

(** How often the constructor's line stands on a console. *)
Definition creation_lines (out : list string) : nat :=
  length (filter (fun l => l = "New DatabaseConnection instance created.") out).

End Singleton.

(** ** Factory: [VehicleFactory] *)

Module Factory.

(** [Car] and [Bike] are the two classes that implement [Vehicle]; neither
    has a field. *)
Inductive Vehicle : Type :=
  | Car
  | Bike.

Section Methods.
Context {St E : Type}.

Definition drive (this : Vehicle) : M St E unit :=
  match this with
  | Car => console_log "Driving a car"
  | Bike => console_log "Riding a bike"
  end.

Definition createVehicle (type : string) : M St E Vehicle :=
  if decide (type = "car") then mret Car
  else if decide (type = "bike") then mret Bike
  else throw (Error "Vehicle type not supported").

(** [VehicleFactory.createVehicle(type).drive()], as the usage lines do it. *)
Definition create_and_drive (type : string) : M St E unit :=
  vehicle ← createVehicle type;
  drive vehicle.

End Methods.

(** The tags the factory knows. *)
Definition supported (type : string) : Prop := type = "car" \/ type = "bike".

(** The line [drive] prints for the vehicle a supported tag stands for. *)
Definition driving_line (type : string) : string :=
  if decide (type = "car") then "Driving a car" else "Riding a bike".

End Factory.

(** ** Adapter: [PaymentGateway] *)

Module Adapter.

(** The adaptees have no fields. *)
Definition PayPal := Ref.
Definition Stripe := Ref.

Section Methods.
Context {number : Type} `{!JSNumber number} {St : Type}.

Inductive Call : Type :=
  | sendPayment_ (this : PayPal) (amount : number)
  | chargePayment_ (this : Stripe) (amount : number).

Definition sendPayment (this : PayPal) (amount : number) : M St Call unit :=
  called (sendPayment_ this amount);;
  console_log ("Payment of $" +:+ toString amount +:+ " made through PayPal.").

Definition chargePayment (this : Stripe) (amount : number) : M St Call unit :=
  called (chargePayment_ this amount);;
  console_log ("Payment of $" +:+ toString amount +:+ " made through Stripe.").

(** The two adapters, each holding its adaptee in a private field. *)
Inductive PaymentGateway : Type :=
  | PayPalAdapter (paypal : PayPal)
  | StripeAdapter (stripe : Stripe).

Definition makePayment (this : PaymentGateway) (amount : number)
  : M St Call unit :=
  match this with
  | PayPalAdapter paypal => sendPayment paypal amount
  | StripeAdapter stripe => chargePayment stripe amount
  end.

(** What one payment through a gateway leaves behind: the call that reaches
    the adaptee and the line the adaptee prints. *)
Definition native (payment : PaymentGateway * number) : Call :=
  match payment with
  | (PayPalAdapter paypal, amount) => sendPayment_ paypal amount
  | (StripeAdapter stripe, amount) => chargePayment_ stripe amount
  end.

Definition receipt (payment : PaymentGateway * number) : string :=
  match payment with
  | (PayPalAdapter _, amount) =>
      "Payment of $" +:+ toString amount +:+ " made through PayPal."
  | (StripeAdapter _, amount) =>
      "Payment of $" +:+ toString amount +:+ " made through Stripe."
  end.

(** A run of payments, each through the unified [makePayment]. *)
Definition pay_all (payments : list (PaymentGateway * number))
  : M St Call unit :=
  forEach payments (fun payment => makePayment payment.1 payment.2).

End Methods.
Arguments Call number : clear implicits.

End Adapter.

(** ** Decorator: [Coffee] *)

Module Decorator.

(** Costs are built from the literals 50, 10 and 5 by addition, so they are
    integers, and [number] is read as [Z] here. *)
Inductive Coffee : Type :=
  | Espresso
  | CoffeeDecorator (coffee : Coffee)
  | MilkDecorator (coffee : Coffee)
  | SugarDecorator (coffee : Coffee).

Fixpoint cost (this : Coffee) : Z :=
  match this with
  | Espresso => 50
  | CoffeeDecorator coffee => cost coffee
  | MilkDecorator coffee => cost coffee + 10
  | SugarDecorator coffee => cost coffee + 5
  end.

Fixpoint description (this : Coffee) : string :=
  match this with
  | Espresso => "Espresso"
  | CoffeeDecorator coffee => description coffee
  | MilkDecorator coffee => description coffee +:+ ", Milk"
  | SugarDecorator coffee => description coffee +:+ ", Sugar"
  end.

(** Nesting depth: the number of wrappers around the base component. *)
Fixpoint depth (this : Coffee) : nat :=
  match this with
  | Espresso => 0
  | CoffeeDecorator coffee
  | MilkDecorator coffee
  | SugarDecorator coffee => S (depth coffee)
  end.

(** How many [MilkDecorator]s and [SugarDecorator]s a coffee is wrapped in. *)
Fixpoint milks (this : Coffee) : nat :=
  match this with
  | Espresso => 0
  | CoffeeDecorator coffee => milks coffee
  | MilkDecorator coffee => S (milks coffee)
  | SugarDecorator coffee => milks coffee
  end.

Fixpoint sugars (this : Coffee) : nat :=
  match this with
  | Espresso => 0
  | CoffeeDecorator coffee => sugars coffee
  | MilkDecorator coffee => sugars coffee
  | SugarDecorator coffee => S (sugars coffee)
  end.

(** The labels of the wrappers, innermost first. *)
Fixpoint labels (this : Coffee) : list string :=
  match this with
  | Espresso => []
  | CoffeeDecorator coffee => labels coffee
  | MilkDecorator coffee => labels coffee ++ [", Milk"]
  | SugarDecorator coffee => labels coffee ++ [", Sugar"]
  end.

(** All strings of a list, one after the other. *)
Definition join (parts : list string) : string :=
  foldr String.append "" parts.

End Decorator.

(** ** Observer: [Stock] and [Investor] *)

Module ObserverPattern.

(** [Investor] is the one class that implements [Observer].  Its [name] is
    set by the constructor and never assigned again, so an investor is kept
    by value together with its address [addr]; [===] and [!==] on observers
    compare addresses only. *)
Record Investor : Type := mkInvestor {
  addr : Ref;
  name : string
}.

Abbreviation Observer := Investor.

Section Methods.
Context {number : Type} `{!JSNumber number}.

Record Stock : Type := mkStock {
  observers : list Observer;
  price : number
}.

Inductive Call : Type :=
  | update_ (this : Ref) (stockPrice : number).

Abbreviation Eff := (M Stock Call).

(** [new Stock()] *)
Definition new_Stock : Stock := mkStock [] (literal 100).

Definition update (this : Investor) (stockPrice : number) : Eff unit :=
  called (update_ (addr this) stockPrice);;
  console_log (name this +:+ " notified: New stock price is $"
               +:+ toString stockPrice).

Definition addObserver (observer : Observer) : Eff unit :=
  s ← get;
  put (mkStock (observers s ++ [observer]) (price s)).

Definition removeObserver (observer : Observer) : Eff unit :=
  s ← get;
  put (mkStock (filter (fun o => addr o ≠ addr observer) (observers s))
               (price s)).

(** [this.observers.forEach(observer => observer.update(this.price))]: the
    array is fetched once, [this.price] is read at each callback. *)
Definition notifyObservers : Eff unit :=
  s ← get;
  forEach (observers s) (fun observer =>
    s' ← get;
    update observer (price s')).

Definition setPrice (newPrice : number) : Eff unit :=
  s ← get;
  put (mkStock (observers s) newPrice);;
  notifyObservers.

(** What one [update] leaves behind: the line it prints and the call it
    records. *)
Definition notice (stockPrice : number) (o : Investor) : string :=
  name o +:+ " notified: New stock price is $" +:+ toString stockPrice.

Definition update_of (stockPrice : number) (o : Investor) : Call :=
  update_ (addr o) stockPrice.

(** A world holding a freshly built stock, nothing printed yet. *)
Definition start : World Stock Call := mkWorld new_Stock [] [].

(** The public operations of a stock, for statements about sequences of
    calls. *)
Inductive Op : Type :=
  | AddObserver (observer : Observer)
  | RemoveObserver (observer : Observer)
  | SetPrice (newPrice : number).

Definition perform (op : Op) : Eff unit :=
  match op with
  | AddObserver observer => addObserver observer
  | RemoveObserver observer => removeObserver observer
  | SetPrice newPrice => setPrice newPrice
  end.

Definition subscribes (a : Ref) (op : Op) : bool :=
  match op with
  | AddObserver observer => bool_decide (addr observer = a)
  | _ => false
  end.

Definition targets (a : Ref) (c : Call) : bool :=
  match c with update_ this _ => bool_decide (this = a) end.

(** The [update] calls an address has received in a history. *)
Definition received (a : Ref) (h : list Call) : list Call :=
  filter (fun c => targets a c) h.

(** How often an address stands in a subscriber list. *)
Definition occurrences (a : Ref) (subscribers : list Observer) : nat :=
  length (filter (fun o => addr o = a) subscribers).

(** The prices a sequence of operations sets, in order. *)
Definition prices_set (ops : list Op) : list number :=
  omap (fun op => match op with SetPrice p => Some p | _ => None end) ops.

Definition stockPrice_of (c : Call) : number :=
  match c with update_ _ stockPrice => stockPrice end.

End Methods.
Arguments Stock number : clear implicits.
Arguments Call number : clear implicits.
Arguments Op number : clear implicits.

(** What the specification says of unsubscribing, written on its own:
    drop every occurrence of the reference and keep the rest as it
    stands. *)
Fixpoint remove_all (a : Ref) (subscribers : list Observer) : list Observer :=
  match subscribers with
  | [] => []
  | o :: rest =>
      if bool_decide (addr o = a) then remove_all a rest
      else o :: remove_all a rest
  end.

End ObserverPattern.

(** ** Command: [RemoteControl] *)

Module CommandPattern.

(** The receiver has no fields. *)
Definition Light := Ref.

Inductive Call : Type :=
  | on_ (this : Light)
  | off_ (this : Light).

Inductive Command : Type :=
  | LightOnCommand (light : Light)
  | LightOffCommand (light : Light).

(** The invoker.  [command] is declared without an initialiser and the class
    has no constructor: the field is [undefined] until [setCommand] runs. *)
Record RemoteControl : Type := mkRemoteControl {
  command : option Command
}.

Abbreviation Eff := (M RemoteControl Call).

Definition on (this : Light) : Eff unit :=
  called (on_ this);;
  console_log "Light is ON".

Definition off (this : Light) : Eff unit :=
  called (off_ this);;
  console_log "Light is OFF".

Definition execute (this : Command) : Eff unit :=
  match this with
  | LightOnCommand light => on light
  | LightOffCommand light => off light
  end.

(** [new RemoteControl()] *)
Definition new_RemoteControl : RemoteControl := mkRemoteControl None.

Definition setCommand (command : Command) : Eff unit :=
  put (mkRemoteControl (Some command)).

(** [this.command.execute()]: reading [execute] off [undefined] raises a
    [TypeError]. *)
Definition pressButton : Eff unit :=
  s ← get;
  match command s with
  | Some c => execute c
  | None => throw TypeError
  end.

Definition start : World RemoteControl Call :=
  mkWorld new_RemoteControl [] [].

(** The public operations of a remote control. *)
Inductive Op : Type :=
  | SetCommand (command : Command)
  | PressButton.

Definition perform (op : Op) : Eff unit :=
  match op with
  | SetCommand c => setCommand c
  | PressButton => pressButton
  end.

(** What one [execute] leaves behind: the call that reaches the light and
    the line the light prints. *)
Definition signal (c : Command) : Call :=
  match c with
  | LightOnCommand light => on_ light
  | LightOffCommand light => off_ light
  end.

Definition feedback (c : Command) : string :=
  match c with
  | LightOnCommand _ => "Light is ON"
  | LightOffCommand _ => "Light is OFF"
  end.

(** The calls a sequence of operations sends to lights when it starts with
    the binding [bound]: each press fires the command bound at that moment;
    a press with nothing bound ends the sequence. *)
Fixpoint signals (bound : option Command) (ops : list Op) : list Call :=
  match ops with
  | [] => []
  | SetCommand c :: rest => signals (Some c) rest
  | PressButton :: rest =>
      match bound with
      | Some c => signal c :: signals bound rest
      | None => []
      end
  end.

End CommandPattern.

(** * Properties *)

(** Unfolding the monad down to functions on worlds. *)
Ltac run :=
  unfold mbind, mret, M_bind, M_ret, bind, ret, throw, get, put, called,
    console_log, outcome, after, returns in *;
  cbn in *.

(** ** Singleton *)

Section SingletonProperties.
Import Singleton.

Lemma getInstance_cached (w : World Statics Call) (r : DatabaseConnection) :
  instance (store w) = Some r ->
  getInstance w = (Normal r, w).
Proof.
  intros Hr. unfold getInstance. run. now rewrite Hr.
Qed.

Lemma getInstance_first (w : World Statics Call) :
  instance (store w) = None ->
  getInstance w =
    (Normal (next (store w)),
     mkWorld (mkStatics (Some (next (store w))) (S (next (store w))))
             (console w ++ ["New DatabaseConnection instance created."])
             (calls w ++ [constructor_ (next (store w))])).
Proof.
  intros Hr. unfold getInstance, new_DatabaseConnection. run. now rewrite Hr.
Qed.

Lemma getInstance_times_cached (N : nat) (w : World Statics Call)
    (r : DatabaseConnection) :
  instance (store w) = Some r ->
  getInstance_times N w = (Normal (replicate N r), w).
Proof.
  intros Hr. induction N as [|n IH]; [reflexivity|].
  cbn [getInstance_times]. unfold mbind, M_bind, bind.
  rewrite (getInstance_cached w r Hr), IH. reflexivity.
Qed.

Lemma getInstance_returns (w : World Statics Call) : returns getInstance w.
Proof.
  unfold returns, outcome.
  destruct (instance (store w)) as [r|] eqn:Hi.
  - rewrite (getInstance_cached w r Hi). now exists r.
  - rewrite (getInstance_first w Hi). now eexists.
Qed.

Lemma query_returns (this : DatabaseConnection) (sql : string)
    (w : World Statics Call) :
  returns (query this sql) w.
Proof. now exists tt. Qed.

Lemma getInstance_outcome (w : World Statics Call) :
  outcome getInstance w = Normal (the_instance w).
Proof.
  unfold outcome, the_instance.
  destruct (instance (store w)) as [r|] eqn:Hi.
  - now rewrite (getInstance_cached w r Hi).
  - now rewrite (getInstance_first w Hi).
Qed.

Lemma constructions_app (h1 h2 : list Call) :
  constructions (h1 ++ h2) = constructions h1 + constructions h2.
Proof.
  unfold constructions. now rewrite filter_app, length_app.
Qed.

(** C1.  From any state of the program, and so from its start, [N >= 1]
    calls of [getInstance] all return one and the same reference, which is
    then the value of the static field; the constructor runs during the
    first of these calls exactly when the field was still [undefined], and
    never during a later one.  From the start of the program this is one
    construction in total, whatever [N] is. *)
Theorem getInstance_same_instance_every_call
    (w : World Statics Call) (N : nat) :
  1 <= N ->
  outcome getInstance w = Normal (the_instance w) /\
  outcome (getInstance_times N) w = Normal (replicate N (the_instance w)) /\
  after (getInstance_times N) w = after getInstance w /\
  instance (store (after getInstance w)) = Some (the_instance w) /\
  constructions (calls (after getInstance w))
    = constructions (calls w) + pending w /\
  constructions (calls (after (getInstance_times N) start)) = 1.
Proof.
  intros HN. destruct N as [|n]; [lia|].
  split; [apply getInstance_outcome|].
  assert (Hgen : forall v : World Statics Call,
    getInstance_times (S n) v
      = (Normal (replicate (S n) (the_instance v)), after getInstance v) /\
    instance (store (after getInstance v)) = Some (the_instance v) /\
    constructions (calls (after getInstance v))
      = constructions (calls v) + pending v).
  { intros v. unfold the_instance, pending, after.
    destruct (instance (store v)) as [r|] eqn:Hi.
    - cbn [getInstance_times]. unfold mbind, M_bind, bind.
      rewrite (getInstance_cached v r Hi).
      rewrite (getInstance_times_cached n v r Hi). cbn.
      repeat split; [assumption | lia].
    - cbn [getInstance_times]. unfold mbind, M_bind, bind.
      rewrite (getInstance_first v Hi).
      rewrite getInstance_times_cached with (r := next (store v))
        by reflexivity.
      cbn [fst snd store calls instance].
      repeat split. now rewrite constructions_app. }
  destruct (Hgen w) as (Hrun & Hinst & Hcount).
  unfold outcome, after at 1. rewrite Hrun. cbn [fst snd].
  repeat split; try assumption.
  unfold after at 1. rewrite (proj1 (Hgen start)). cbn [snd].
  rewrite (proj2 (proj2 (Hgen start))). reflexivity.
Qed.

Lemma getInstance_same_instance_every_call_witness :
  1 <= 3 /\
  outcome getInstance start = Normal 0 /\
  outcome (getInstance_times 3) start = Normal [0; 0; 0] /\
  after (getInstance_times 3) start = after getInstance start /\
  instance (store (after getInstance start)) = Some 0 /\
  constructions (calls (after getInstance start)) = 0 + 1 /\
  constructions (calls (after (getInstance_times 3) start)) = 1.
Proof.
  split; [lia|].
  apply (getInstance_same_instance_every_call start 3). lia.
Defined.

(** The usage script: [db1 === db2]. *)
Example db1_is_db2 :
  outcome (db1 ← getInstance; query db1 "SELECT * FROM users";;
           db2 ← getInstance; mret (bool_decide (db1 = db2))) start
  = Normal true.
Proof. reflexivity. Qed.

End SingletonProperties.

(** ** Factory *)

Section FactoryProperties.
Import Factory.
Context {St E : Type}.

Lemma drive_returns (v : Vehicle) (w : World St E) : returns (drive v) w.
Proof. destruct v; now exists tt. Qed.

(** C2.  [createVehicle "car"] returns a [Car], whose [drive] prints the
    car line; [createVehicle "bike"] returns a [Bike], whose [drive] prints
    the bike line; every other tag throws
    [Error("Vehicle type not supported")] at once: no vehicle is returned
    and nothing has been printed or changed. *)
Theorem createVehicle_by_tag (w : World St E) :
  (createVehicle "car" w = (Normal Car, w) /\
   drive Car w = (Normal tt, mkWorld (store w) (console w ++ ["Driving a car"]) (calls w))) /\
  (createVehicle "bike" w = (Normal Bike, w) /\
   drive Bike w = (Normal tt, mkWorld (store w) (console w ++ ["Riding a bike"]) (calls w))) /\
  (forall type : string,
     type <> "car" -> type <> "bike" ->
     createVehicle type w = (Throw (Error "Vehicle type not supported"), w)).
Proof.
  repeat split.
  intros type Hcar Hbike. unfold createVehicle.
  destruct (decide (type = "car")) as [|_]; [contradiction|].
  destruct (decide (type = "bike")) as [|_]; [contradiction|].
  reflexivity.
Qed.

End FactoryProperties.

Lemma createVehicle_by_tag_witness :
  "truck" <> "car" /\ "truck" <> "bike" /\
  Factory.createVehicle "truck" (mkWorld tt [] ([] : list unit))
  = (Throw (Error "Vehicle type not supported"), mkWorld tt [] []).
Proof.
  split; [discriminate|]. split; [discriminate|].
  apply (proj2 (proj2 (createVehicle_by_tag (mkWorld tt [] []))));
    discriminate.
Defined.

(** The usage script of the factory snippet. *)
Example factory_usage :
  console (after (car ← Factory.createVehicle "car"; Factory.drive car;;
                  bike ← Factory.createVehicle "bike"; Factory.drive bike)
                 (mkWorld tt [] ([] : list unit)))
  = ["Driving a car"; "Riding a bike"].
Proof. reflexivity. Qed.

(** ** Command *)

Section CommandProperties.
Import CommandPattern.

Lemma execute_returns (c : Command) (w : World RemoteControl Call) :
  returns (execute c) w.
Proof. destruct c; now exists tt. Qed.

Lemma setCommand_returns (c : Command) (w : World RemoteControl Call) :
  returns (setCommand c) w.
Proof. now exists tt. Qed.

Lemma pressButton_bound (c : Command) (w : World RemoteControl Call) :
  command (store w) = Some c ->
  pressButton w = execute c w.
Proof. intros Hc. unfold pressButton. run. now rewrite Hc. Qed.

Lemma pressButton_unbound (w : World RemoteControl Call) :
  command (store w) = None ->
  pressButton w = (Throw TypeError, w).
Proof. intros Hc. unfold pressButton. run. now rewrite Hc. Qed.

(** [pressButton] returns exactly when a command is bound. *)
Lemma pressButton_returns_iff (w : World RemoteControl Call) :
  returns pressButton w <-> command (store w) <> None.
Proof.
  unfold returns, outcome.
  destruct (command (store w)) as [c|] eqn:Hc.
  - rewrite (pressButton_bound c w Hc).
    split; [discriminate | intros _; apply execute_returns].
  - rewrite (pressButton_unbound w Hc). cbn.
    split; [intros [a Ha]; discriminate | congruence].
Qed.

(** Neither [execute] nor [pressButton] assigns the field. *)
Lemma execute_keeps_store (c : Command) (w : World RemoteControl Call) :
  store (after (execute c) w) = store w.
Proof. now destruct c. Qed.

(** Two different commands never have the same effect: the receiver call
    they record differs. *)
Lemma execute_inj (c c' : Command) (w : World RemoteControl Call) :
  execute c w = execute c' w -> c = c'.
Proof.
  destruct c as [l|l], c' as [l'|l']; run; intros H;
    injection H as H; apply app_inj_tail in H as [_ H]; congruence.
Qed.

(** C3, at the input where it fails.  On a remote control that has just been
    built, [pressButton] does not return: it throws a [TypeError], the field
    [command] being still [undefined]. *)
Theorem pressButton_before_setCommand_throws :
  pressButton start = (Throw TypeError, start) /\
  ~ returns pressButton start.
Proof.
  split; [reflexivity|].
  intros [a Ha]. discriminate Ha.
Qed.

(** The only way [pressButton] fails: in a sequence of calls on a fresh
    remote control, every [pressButton] that comes after some [setCommand]
    returns. *)
Lemma perform_keeps_bound (op : Op) (w : World RemoteControl Call) :
  command (store w) <> None ->
  returns (perform op) w /\ command (store (after (perform op) w)) <> None.
Proof.
  intros Hb. destruct op as [c|]; cbn [perform].
  - split; [apply setCommand_returns | discriminate].
  - split; [now apply pressButton_returns_iff|].
    destruct (command (store w)) as [c|] eqn:Hc; [|congruence].
    unfold after. rewrite (pressButton_bound c w Hc).
    fold (after (execute c) w). rewrite execute_keeps_store. congruence.
Qed.

Lemma forEach_perform_returns_once_bound
    (ops : list Op) (w : World RemoteControl Call) :
  command (store w) <> None ->
  returns (forEach ops perform) w.
Proof.
  revert w. induction ops as [|op rest IH]; intros w Hb; [now exists tt|].
  destruct (perform_keeps_bound op w Hb) as [[[] Hret] Hb'].
  unfold returns, outcome, after in *. cbn [forEach]. unfold bind.
  destruct (perform op w) as [r w'] eqn:Hrun. cbn [fst snd] in *. subst r.
  now apply IH.
Qed.

(** C8.  Once [setCommand c] has run, [pressButton] is [execute c]: the same
    outcome and the same final world, so the effect of [c] and nothing
    besides, and the binding stays.  After [setCommand c'] the very same
    [pressButton] is [execute c'], which for [c'] other than [c] is not the
    effect of [c]. *)
Theorem pressButton_runs_bound_command
    (w : World RemoteControl Call) (c c' : Command) :
  c <> c' ->
  let w1 := after (setCommand c) w in
  let w2 := after (setCommand c') (after pressButton w1) in
  pressButton w1 = execute c w1 /\
  store (after pressButton w1) = store w1 /\
  pressButton w2 = execute c' w2 /\
  pressButton w2 <> execute c w2.
Proof.
  intros Hne w1 w2.
  assert (H1 : pressButton w1 = execute c w1) by now apply pressButton_bound.
  assert (H2 : pressButton w2 = execute c' w2) by now apply pressButton_bound.
  repeat split; try assumption.
  - unfold after at 1. rewrite H1. apply execute_keeps_store.
  - rewrite H2. intros Heq. apply execute_inj in Heq. congruence.
Qed.

Lemma pressButton_runs_bound_command_witness :
  LightOnCommand 0 <> LightOffCommand 0 /\
  let w1 := after (setCommand (LightOnCommand 0)) start in
  let w2 := after (setCommand (LightOffCommand 0)) (after pressButton w1) in
  pressButton w1 = execute (LightOnCommand 0) w1 /\
  store (after pressButton w1) = store w1 /\
  pressButton w2 = execute (LightOffCommand 0) w2 /\
  pressButton w2 <> execute (LightOnCommand 0) w2.
Proof.
  split; [discriminate|].
  apply (pressButton_runs_bound_command start
           (LightOnCommand 0) (LightOffCommand 0)).
  discriminate.
Defined.

(** The usage script of the command snippet, with the light at address 0. *)
Example remote_usage :
  let script :=
    setCommand (LightOnCommand 0);; pressButton;;
    setCommand (LightOffCommand 0);; pressButton in
  console (after script start) = ["Light is ON"; "Light is OFF"] /\
  calls (after script start) = [on_ 0; off_ 0].
Proof. split; reflexivity. Qed.

End CommandProperties.

(** ** Adapter *)

Section AdapterProperties.
Import Adapter.
Context {number : Type} `{!JSNumber number} {St : Type}.

Lemma makePayment_returns (g : PaymentGateway) (amount : number)
    (w : World St (Call number)) :
  returns (makePayment g amount) w.
Proof. destruct g; now exists tt. Qed.

(** C9.  For every amount, [makePayment] on a [PayPalAdapter] is
    [sendPayment] on the wrapped [PayPal] object with that very amount, and
    [makePayment] on a [StripeAdapter] is [chargePayment] on the wrapped
    [Stripe] object with that very amount: one call reaches the adaptee, it
    carries the amount as given, and nothing else happens. *)
Theorem makePayment_delegates_amount_unchanged
    (paypal : PayPal) (stripe : Stripe) (amount : number)
    (w : World St (Call number)) :
  (makePayment (PayPalAdapter paypal) amount w = sendPayment paypal amount w /\
   calls (after (makePayment (PayPalAdapter paypal) amount) w)
     = calls w ++ [sendPayment_ paypal amount] /\
   console (after (makePayment (PayPalAdapter paypal) amount) w)
     = console w ++ ["Payment of $" +:+ toString amount
                     +:+ " made through PayPal."]) /\
  (makePayment (StripeAdapter stripe) amount w = chargePayment stripe amount w /\
   calls (after (makePayment (StripeAdapter stripe) amount) w)
     = calls w ++ [chargePayment_ stripe amount] /\
   console (after (makePayment (StripeAdapter stripe) amount) w)
     = console w ++ ["Payment of $" +:+ toString amount
                     +:+ " made through Stripe."]).
Proof. repeat split. Qed.

End AdapterProperties.

(** The usage script of the adapter snippet. *)
Example adapter_usage :
  let script : M unit (Adapter.Call Z) unit :=
    Adapter.makePayment (Adapter.PayPalAdapter 0) 100%Z;;
    Adapter.makePayment (Adapter.StripeAdapter 1) 200%Z in
  console (after script (mkWorld tt [] []))
  = ["Payment of $100 made through PayPal.";
     "Payment of $200 made through Stripe."].
Proof. vm_compute. reflexivity. Qed.

(** ** Decorator *)

Section DecoratorProperties.
Import Decorator.
Open Scope Z_scope.

(** C6.  An [Espresso] costs 50 and is described as "Espresso"; wrapped in a
    [MilkDecorator] and then in a [SugarDecorator] it costs 65 and is
    described as "Espresso, Milk, Sugar". *)
Theorem espresso_milk_sugar :
  cost Espresso = 50 /\
  description Espresso = "Espresso" /\
  cost (SugarDecorator (MilkDecorator Espresso)) = 65 /\
  description (SugarDecorator (MilkDecorator Espresso))
    = "Espresso, Milk, Sugar".
Proof. repeat split. Qed.

(** C7.  Whatever coffee [c] a decorator wraps, at any nesting depth, the
    decorator's result is the result of [c] with the decorator's own fixed
    contribution put after it: 10 and ", Milk" for [MilkDecorator], 5 and
    ", Sugar" for [SugarDecorator]. *)
Theorem decorator_adds_own_contribution (c : Coffee) :
  cost (MilkDecorator c) = cost c + 10 /\
  description (MilkDecorator c) = description c +:+ ", Milk" /\
  cost (SugarDecorator c) = cost c + 5 /\
  description (SugarDecorator c) = description c +:+ ", Sugar".
Proof. repeat split. Qed.

(** The undecorated base class only forwards. *)
Lemma CoffeeDecorator_forwards (c : Coffee) :
  cost (CoffeeDecorator c) = cost c /\
  description (CoffeeDecorator c) = description c.
Proof. split; reflexivity. Qed.

(** X19.  Consequences over the whole nesting, by induction on the coffee:
    no coffee is cheaper than the espresso at its core, and none costs more
    than 10 above it per level of nesting. *)
Lemma cost_bounds (c : Coffee) :
  50 <= cost c <= 50 + 10 * Z.of_nat (depth c).
Proof. induction c; cbn [cost depth]; lia. Qed.

Lemma description_starts_with_base (c : Coffee) :
  exists labels : string, description c = "Espresso" +:+ labels.
Proof.
  induction c as [|c [l IH]|c [l IH]|c [l IH]]; cbn [description].
  - now exists "".
  - now exists l.
  - exists (l +:+ ", Milk"). rewrite IH. reflexivity.
  - exists (l +:+ ", Sugar"). rewrite IH. reflexivity.
Qed.

(** The three lines of the usage script. *)
Example decorator_usage :
  map (fun c => description c +:+ " costs $" +:+ pretty (cost c))
      [Espresso; MilkDecorator Espresso;
       SugarDecorator (MilkDecorator Espresso)]
  = ["Espresso costs $50"; "Espresso, Milk costs $60";
     "Espresso, Milk, Sugar costs $65"].
Proof. vm_compute. reflexivity. Qed.

End DecoratorProperties.

(** ** Observer *)

Section ObserverProperties.
Import ObserverPattern.
Context {number : Type} `{!JSNumber number}.

Abbreviation world := (World (Stock number) (Call number)).

Lemma update_run (o : Investor) (p : number) (w : world) :
  update o p w =
    (Normal tt,
     mkWorld (store w) (console w ++ [notice p o]) (calls w ++ [update_of p o])).
Proof. reflexivity. Qed.

(** The loop of [notifyObservers]: one [update] per element, in list order,
    each with the price stored when the loop began, since [update] leaves
    the stock alone. *)
Lemma forEach_update_run (obs : list Observer) (w : world) :
  forEach obs (fun observer => s' ← get; update observer (price s')) w =
    (Normal tt,
     mkWorld (store w)
             (console w ++ map (notice (price (store w))) obs)
             (calls w ++ map (update_of (price (store w))) obs)).
Proof.
  revert w. induction obs as [|o rest IH]; intros w.
  - cbn. rewrite !app_nil_r. now destruct w.
  - cbn [forEach map]. unfold bind at 1.
    unfold mbind at 1, M_bind at 1, bind at 1, get at 1.
    rewrite update_run, IH. cbn [store console calls].
    now rewrite <- !app_assoc.
Qed.

Lemma notifyObservers_run (w : world) :
  notifyObservers w =
    (Normal tt,
     mkWorld (store w)
             (console w ++ map (notice (price (store w))) (observers (store w)))
             (calls w ++ map (update_of (price (store w))) (observers (store w)))).
Proof.
  unfold notifyObservers, mbind, M_bind, bind at 1, get at 1.
  apply forEach_update_run.
Qed.

Lemma setPrice_run (newPrice : number) (w : world) :
  setPrice newPrice w =
    (Normal tt,
     mkWorld (mkStock (observers (store w)) newPrice)
             (console w ++ map (notice newPrice) (observers (store w)))
             (calls w ++ map (update_of newPrice) (observers (store w)))).
Proof.
  unfold setPrice, mbind, M_bind, bind, get at 1, put.
  now rewrite notifyObservers_run.
Qed.

Lemma addObserver_run (o : Observer) (w : world) :
  addObserver o w =
    (Normal tt,
     mkWorld (mkStock (observers (store w) ++ [o]) (price (store w)))
             (console w) (calls w)).
Proof. reflexivity. Qed.

Lemma filter_is_remove_all (a : Ref) (obs : list Observer) :
  filter (fun o => addr o ≠ a) obs = remove_all a obs.
Proof.
  induction obs as [|o rest IH]; [reflexivity|].
  cbn [remove_all]. rewrite filter_cons, IH.
  destruct (decide (addr o ≠ a)) as [Hne|Heq].
  - now rewrite bool_decide_eq_false_2.
  - rewrite bool_decide_eq_true_2; [reflexivity|].
    destruct (decide (addr o = a)); [assumption|contradiction].
Qed.

Lemma removeObserver_run (o : Observer) (w : world) :
  removeObserver o w =
    (Normal tt,
     mkWorld (mkStock (remove_all (addr o) (observers (store w)))
                      (price (store w)))
             (console w) (calls w)).
Proof.
  unfold removeObserver. run. now rewrite filter_is_remove_all.
Qed.

Lemma perform_returns (op : Op number) (w : world) : returns (perform op) w.
Proof.
  exists tt. unfold outcome. destruct op as [o|o|p]; cbn [perform].
  - now rewrite addObserver_run.
  - now rewrite removeObserver_run.
  - now rewrite setPrice_run.
Qed.

(** *** Removing by reference *)

Lemma elem_of_remove_all (a : Ref) (obs : list Observer) (x : Observer) :
  x ∈ remove_all a obs <-> x ∈ obs /\ addr x ≠ a.
Proof.
  rewrite <- filter_is_remove_all, list_elem_of_filter. tauto.
Qed.

Lemma remove_all_app (a : Ref) (l1 l2 : list Observer) :
  remove_all a (l1 ++ l2) = remove_all a l1 ++ remove_all a l2.
Proof.
  rewrite <- !filter_is_remove_all. apply filter_app.
Qed.

Lemma remove_all_sublist (a : Ref) (obs : list Observer) :
  remove_all a obs `sublist_of` obs.
Proof.
  rewrite <- filter_is_remove_all. apply sublist_filter.
Qed.

(** An observer other than the removed one keeps its place among the
    others. *)
Lemma remove_all_keeps_other (a : Ref) (l1 l2 : list Observer) (x : Observer) :
  addr x ≠ a ->
  remove_all a (l1 ++ x :: l2) = remove_all a l1 ++ x :: remove_all a l2.
Proof.
  intros Hx. rewrite remove_all_app. cbn [remove_all].
  now rewrite bool_decide_eq_false_2.
Qed.

(** *** Who is called *)

Lemma received_app (a : Ref) (h1 h2 : list (Call number)) :
  received a (h1 ++ h2) = received a h1 ++ received a h2.
Proof. apply filter_app. Qed.

Lemma received_none (a : Ref) (p : number) (obs : list Observer) :
  Forall (fun o => addr o ≠ a) obs ->
  received a (map (update_of p) obs) = [].
Proof.
  induction 1 as [|o rest Ho _ IH]; [reflexivity|].
  cbn [map]. unfold received in *. rewrite filter_cons, IH.
  cbn [update_of targets]. now rewrite bool_decide_eq_false_2.
Qed.

(** As long as [a] is not subscribed again, it stays unsubscribed and no
    call reaches it. *)
Lemma perform_leaves_unsubscribed (a : Ref) (op : Op number) (w : world) :
  Forall (fun o => addr o ≠ a) (observers (store w)) ->
  subscribes a op = false ->
  Forall (fun o => addr o ≠ a) (observers (store (after (perform op) w))) /\
  received a (calls (after (perform op) w)) = received a (calls w).
Proof.
  intros Habs Hop. unfold after.
  destruct op as [o|o|p]; cbn [perform subscribes] in *.
  - rewrite addObserver_run. cbn [fst snd store calls observers]. split; [|reflexivity].
    apply Forall_app. split; [assumption|].
    apply Forall_singleton. now apply bool_decide_eq_false in Hop.
  - rewrite removeObserver_run. cbn [fst snd store calls observers]. split; [|reflexivity].
    apply Forall_forall. intros x Hx.
    apply elem_of_remove_all in Hx as [Hx _].
    revert x Hx. now apply Forall_forall.
  - rewrite setPrice_run. cbn [fst snd store calls observers]. split; [assumption|].
    rewrite received_app, received_none by assumption. apply app_nil_r.
Qed.

Lemma forEach_perform_leaves_unsubscribed
    (a : Ref) (ops : list (Op number)) (w : world) :
  Forall (fun o => addr o ≠ a) (observers (store w)) ->
  Forall (fun op => subscribes a op = false) ops ->
  outcome (forEach ops perform) w = Normal tt /\
  received a (calls (after (forEach ops perform) w)) = received a (calls w).
Proof.
  intros Habs Hops. revert w Habs.
  induction Hops as [|op rest Hop _ IH]; intros w Habs; [now split|].
  destruct (perform_leaves_unsubscribed a op w Habs Hop) as [Habs' Hrec].
  destruct (perform_returns op w) as [[] Hret].
  unfold outcome, after in *. cbn [forEach]. unfold bind.
  destruct (perform op w) as [c w'] eqn:Hrun. cbn [fst snd] in *. subst c.
  destruct (IH w' Habs') as [Hout Hrec']. split; [assumption|congruence].
Qed.

(** *** The claims on [Stock] *)

(** C4.  [setPrice newPrice] is [notifyObservers] run on the stock whose
    price is already [newPrice]: it returns, leaves the subscriber list as
    it was, and adds to the history one [update] call per subscribed
    observer, in subscription order, each carrying [newPrice] (and to the
    console the matching lines).  In particular, on a new stock to which
    [investor1] and then [investor2] were added, [setPrice 105] makes two
    calls: [update 105] on [investor1], then [update 105] on [investor2]. *)
Theorem setPrice_notifies_subscribers_in_order
    (newPrice : number) (w : world) (investor1 investor2 : Investor) :
  (setPrice newPrice w
     = notifyObservers
         (mkWorld (mkStock (observers (store w)) newPrice)
                  (console w) (calls w)) /\
   outcome (setPrice newPrice) w = Normal tt /\
   store (after (setPrice newPrice) w)
     = mkStock (observers (store w)) newPrice /\
   calls (after (setPrice newPrice) w)
     = calls w ++ map (update_of newPrice) (observers (store w)) /\
   console (after (setPrice newPrice) w)
     = console w ++ map (notice newPrice) (observers (store w))) /\
  calls (after (addObserver investor1;; addObserver investor2;;
                setPrice (literal 105)) start)
    = [update_ (addr investor1) (literal 105);
       update_ (addr investor2) (literal 105)].
Proof.
  split; [|reflexivity].
  unfold outcome, after. rewrite notifyObservers_run, setPrice_run.
  repeat split.
Qed.

(** C5.  [removeObserver o] returns and replaces the subscriber list by the
    list with every occurrence of the reference [o] dropped: what remains
    are exactly the subscribers other than [o], each where it stood among
    the others; price, console and history are untouched.  From then on,
    through any further calls on the stock that do not subscribe [o] again,
    no [update] reaches [o]: the calls [o] has received stay what they
    were. *)
Theorem removeObserver_drops_every_occurrence
    (o : Observer) (w : world) (later : list (Op number)) :
  Forall (fun op => subscribes (addr o) op = false) later ->
  let w' := after (removeObserver o) w in
  outcome (removeObserver o) w = Normal tt /\
  observers (store w') = remove_all (addr o) (observers (store w)) /\
  (forall x, x ∈ observers (store w')
             <-> x ∈ observers (store w) /\ addr x ≠ addr o) /\
  observers (store w') `sublist_of` observers (store w) /\
  (forall l1 x l2, observers (store w) = l1 ++ x :: l2 -> addr x ≠ addr o ->
     observers (store w')
       = remove_all (addr o) l1 ++ x :: remove_all (addr o) l2) /\
  (price (store w') = price (store w) /\ console w' = console w /\
   calls w' = calls w) /\
  outcome (forEach later perform) w' = Normal tt /\
  received (addr o) (calls (after (forEach later perform) w'))
    = received (addr o) (calls w).
Proof.
  intros Hlater w'.
  assert (Hobs : observers (store w')
                 = remove_all (addr o) (observers (store w))).
  { unfold w', after. now rewrite removeObserver_run. }
  assert (Habs : Forall (fun x => addr x ≠ addr o) (observers (store w'))).
  { rewrite Hobs. apply Forall_forall. intros x Hx.
    now apply elem_of_remove_all in Hx. }
  destruct (forEach_perform_leaves_unsubscribed (addr o) later w' Habs Hlater)
    as [Hout Hrec].
  split; [unfold outcome; now rewrite removeObserver_run|].
  split; [exact Hobs|].
  split; [intros x; rewrite Hobs; apply elem_of_remove_all|].
  split; [rewrite Hobs; apply remove_all_sublist|].
  split.
  { intros l1 x l2 Hsplit Hx. rewrite Hobs, Hsplit.
    now apply remove_all_keeps_other. }
  split; [unfold w', after; now rewrite removeObserver_run|].
  split; [exact Hout|].
  rewrite Hrec. unfold w', after. now rewrite removeObserver_run.
Qed.

(** C10.  [setPrice] has no guard on the value: called with the price the
    stock already holds, it leaves the stock as it is and still calls
    [update] on every subscriber, with that same value; called twice in a
    row with one value it notifies everybody twice. *)
Theorem setPrice_same_price_still_notifies (w : world) :
  let p := price (store w) in
  setPrice p w = notifyObservers w /\
  store (after (setPrice p) w) = store w /\
  calls (after (setPrice p) w)
    = calls w ++ map (update_of p) (observers (store w)) /\
  length (calls (after (setPrice p) w))
    = length (calls w) + length (observers (store w)) /\
  (forall q : number,
     calls (after (setPrice q;; setPrice q) w)
       = calls w ++ map (update_of q) (observers (store w))
                 ++ map (update_of q) (observers (store w))).
Proof.
  intros p. unfold after.
  rewrite notifyObservers_run, setPrice_run. subst p.
  destruct w as [[obs pr] out hist]. cbn [fst snd store calls observers price].
  repeat split.
  - now rewrite length_app, length_map.
  - intros q. unfold mbind, M_bind, bind. rewrite !setPrice_run.
    cbn [fst snd store calls observers price]. now rewrite app_assoc.
Qed.

End ObserverProperties.

(** The usage script of the observer snippet, the investors at addresses 0
    and 1. *)
Example observer_usage :
  let investor1 := ObserverPattern.mkInvestor 0 "Investor 1" in
  let investor2 := ObserverPattern.mkInvestor 1 "Investor 2" in
  console (after (ObserverPattern.addObserver investor1;;
                  ObserverPattern.addObserver investor2;;
                  ObserverPattern.setPrice 105%Z)
                 ObserverPattern.start)
  = ["Investor 1 notified: New stock price is $105";
     "Investor 2 notified: New stock price is $105"].
Proof. vm_compute. reflexivity. Qed.

(** A list that holds [investor1] twice: removing it leaves [investor2]
    alone, and the later price changes reach [investor2] only. *)
Lemma removeObserver_drops_every_occurrence_witness :
  let investor1 := ObserverPattern.mkInvestor 0 "Investor 1" in
  let investor2 := ObserverPattern.mkInvestor 1 "Investor 2" in
  let w : World (ObserverPattern.Stock Z) (ObserverPattern.Call Z) :=
    mkWorld (ObserverPattern.mkStock [investor1; investor2; investor1] 100%Z)
            [] [] in
  let later := [ObserverPattern.SetPrice 105%Z;
                ObserverPattern.AddObserver investor2;
                ObserverPattern.SetPrice 7%Z] in
  Forall (fun op => ObserverPattern.subscribes 0 op = false) later /\
  ObserverPattern.observers
    (store (after (ObserverPattern.removeObserver investor1) w))
    = [investor2] /\
  calls (after (forEach later ObserverPattern.perform)
               (after (ObserverPattern.removeObserver investor1) w))
    = [ObserverPattern.update_ 1 105%Z; ObserverPattern.update_ 1 7%Z;
       ObserverPattern.update_ 1 7%Z] /\
  ObserverPattern.received 0
    (calls (after (forEach later ObserverPattern.perform)
                  (after (ObserverPattern.removeObserver investor1) w)))
    = [].
Proof.
  intros investor1 investor2 w later.
  assert (Hlater : Forall (fun op => ObserverPattern.subscribes 0 op = false)
                          later).
  { repeat constructor. }
  split; [exact Hlater|].
  split; [reflexivity|]. split; [reflexivity|].
  exact (proj2 (proj2 (proj2 (proj2 (proj2 (proj2 (proj2
    (removeObserver_drops_every_occurrence investor1 w later Hlater)))))))).
Defined.

(** * Further properties of the code *)

(** ** Singleton: sequences of calls *)

(** Unfolding the monad while leaving the vocabulary of the statements
    folded. *)
Ltac run_effects :=
  unfold mbind, mret, M_bind, M_ret, bind, ret, throw, get, put, called,
    console_log;
  cbn [fst snd store console calls].

Section SingletonSequences.
Import Singleton.

Lemma creation_lines_app (o1 o2 : list string) :
  creation_lines (o1 ++ o2) = creation_lines o1 + creation_lines o2.
Proof. unfold creation_lines. now rewrite filter_app, length_app. Qed.

(** The line of [query] is never mistaken for the constructor's. *)
Lemma creation_lines_query (sql : string) :
  creation_lines ["Executing query: " +:+ sql] = 0.
Proof.
  unfold creation_lines. rewrite filter_cons.
  destruct (decide _) as [Heq|_]; [discriminate Heq|reflexivity].
Qed.

(** Once the static field is set, no operation changes the statics, builds
    an object or prints the constructor's line. *)
Lemma perform_cached (op : Op) (w : World Statics Call) (r : DatabaseConnection) :
  instance (store w) = Some r ->
  outcome (perform op) w = Normal tt /\
  store (after (perform op) w) = store w /\
  constructions (calls (after (perform op) w)) = constructions (calls w) /\
  creation_lines (console (after (perform op) w)) = creation_lines (console w).
Proof.
  intros Hr. unfold outcome, after. destruct op as [|this sql]; cbn [perform].
  - unfold mbind, M_bind, bind. rewrite (getInstance_cached w r Hr).
    now repeat split.
  - unfold query. run_effects. repeat split.
    + rewrite constructions_app.
      change (constructions [query_ this sql]) with 0. lia.
    + rewrite creation_lines_app, creation_lines_query. lia.
Qed.

Lemma forEach_perform_cached
    (ops : list Op) (w : World Statics Call) (r : DatabaseConnection) :
  instance (store w) = Some r ->
  outcome (forEach ops perform) w = Normal tt /\
  store (after (forEach ops perform) w) = store w /\
  constructions (calls (after (forEach ops perform) w))
    = constructions (calls w) /\
  creation_lines (console (after (forEach ops perform) w))
    = creation_lines (console w).
Proof.
  revert w. induction ops as [|op rest IH]; intros w Hr; [now repeat split|].
  destruct (perform_cached op w r Hr) as (Hout & Hst & Hc & Hl).
  unfold outcome, after in *. cbn [forEach]. unfold bind.
  destruct (perform op w) as [c w'] eqn:Hrun. cbn [fst snd] in *. subst c.
  assert (Hr' : instance (store w') = Some r) by now rewrite Hst.
  destruct (IH w' Hr') as (Hout' & Hst' & Hc' & Hl').
  repeat split; congruence.
Qed.

Lemma forEach_perform_uncached (ops : list Op) (w : World Statics Call) :
  instance (store w) = None ->
  outcome (forEach ops perform) w = Normal tt /\
  next (store (after (forEach ops perform) w))
    = next (store w) + requested ops /\
  constructions (calls (after (forEach ops perform) w))
    = constructions (calls w) + requested ops /\
  creation_lines (console (after (forEach ops perform) w))
    = creation_lines (console w) + requested ops.
Proof.
  revert w. induction ops as [|op rest IH]; intros w Hn.
  - unfold requested. cbn. repeat split; lia.
  - destruct op as [|this sql].
    + (* the first request builds the object; the rest finds it cached *)
      unfold outcome, after, requested. cbn [forEach perform existsb is_request orb].
      unfold mbind, M_bind, bind. rewrite (getInstance_first w Hn).
      cbn [mret M_ret ret].
      match goal with |- context [forEach rest perform ?v] => set (w' := v) end.
      destruct (forEach_perform_cached rest w' (next (store w)) eq_refl)
        as (Hout & Hst & Hc & Hl).
      unfold outcome, after in *.
      repeat split; [assumption | rewrite Hst | rewrite Hc | rewrite Hl];
        unfold w'; cbn [store console calls next].
      * lia.
      * now rewrite constructions_app.
      * now rewrite creation_lines_app.
    + unfold outcome, after, requested in *.
      cbn [forEach perform existsb is_request orb].
      unfold query. run_effects.
      match goal with |- context [forEach rest perform ?v] => set (w' := v) end.
      destruct (IH w' Hn) as (Hout & Hnx & Hc & Hl).
      repeat split; [assumption | rewrite Hnx | rewrite Hc | rewrite Hl];
        unfold w'; cbn [store console calls next]; try reflexivity.
      * rewrite constructions_app.
        change (constructions [query_ this sql]) with 0. lia.
      * rewrite creation_lines_app, creation_lines_query. lia.
Qed.

(** X1.  Whatever sequence of [getInstance] and [query] calls a program
    makes from its start, no call fails and the class is instantiated at
    most once: once if the sequence asks for the instance at all, never
    otherwise.  The constructor's line is printed that many times, and the
    allocator has handed out that many objects. *)
Theorem singleton_built_at_most_once (ops : list Op) :
  outcome (forEach ops perform) start = Normal tt /\
  constructions (calls (after (forEach ops perform) start)) = requested ops /\
  creation_lines (console (after (forEach ops perform) start))
    = requested ops /\
  next (store (after (forEach ops perform) start)) = requested ops /\
  requested ops <= 1.
Proof.
  destruct (forEach_perform_uncached ops start eq_refl)
    as (Hout & Hnx & Hc & Hl).
  repeat split; try assumption.
  unfold requested. destruct (existsb is_request ops); lia.
Qed.

(** X2.  Once the static field holds an object, it holds that object for
    good: no sequence of calls changes the statics or builds another
    object, and a [getInstance] after the sequence returns the same
    reference. *)
Theorem instance_never_replaced
    (w : World Statics Call) (r : DatabaseConnection) (ops : list Op) :
  instance (store w) = Some r ->
  store (after (forEach ops perform) w) = store w /\
  constructions (calls (after (forEach ops perform) w))
    = constructions (calls w) /\
  outcome getInstance (after (forEach ops perform) w) = Normal r.
Proof.
  intros Hr.
  destruct (forEach_perform_cached ops w r Hr) as (_ & Hst & Hc & _).
  repeat split; try assumption.
  unfold outcome. rewrite (getInstance_cached _ r); [reflexivity|].
  now rewrite Hst.
Qed.

Lemma instance_never_replaced_witness :
  let w := after getInstance start in
  let ops := [Query 0 "SELECT * FROM users"; GetInstance; Query 0 "SELECT 1"] in
  instance (store w) = Some 0 /\
  store (after (forEach ops perform) w) = store w /\
  constructions (calls (after (forEach ops perform) w))
    = constructions (calls w) /\
  outcome getInstance (after (forEach ops perform) w) = Normal 0.
Proof.
  intros w ops. split; [reflexivity|].
  apply (instance_never_replaced w 0 ops). reflexivity.
Defined.

End SingletonSequences.

(** ** Factory: which tags succeed *)

Section FactoryTags.
Import Factory.
Context {St E : Type}.

(** X3.  [createVehicle] returns exactly on the tags "car" and "bike", and
    whether it returns or throws it prints nothing and changes nothing. *)
Theorem createVehicle_returns_iff_supported (type : string) (w : World St E) :
  (returns (createVehicle type) w <-> supported type) /\
  after (createVehicle type) w = w.
Proof.
  unfold returns, outcome, after, supported, createVehicle.
  destruct (decide (type = "car")) as [Hc|Hc];
    [|destruct (decide (type = "bike")) as [Hb|Hb]]; cbn.
  - split; [|reflexivity]. split; [now left | now exists Car].
  - split; [|reflexivity]. split; [now right | now exists Bike].
  - split; [|reflexivity]. split; [intros [v Hv]; discriminate | tauto].
Qed.

(** X4.  Creating a vehicle by tag and driving it prints the one line of
    that vehicle when the tag is supported; otherwise the error of the
    factory comes out, [drive] is never reached and nothing is printed. *)
Theorem create_and_drive_prints_or_throws (type : string) (w : World St E) :
  create_and_drive type w =
    if decide (supported type)
    then (Normal tt,
          mkWorld (store w) (console w ++ [driving_line type]) (calls w))
    else (Throw (Error "Vehicle type not supported"), w).
Proof.
  unfold create_and_drive, createVehicle, supported, driving_line.
  destruct (decide (type = "car")) as [Hc|Hc];
    [|destruct (decide (type = "bike")) as [Hb|Hb]].
  - destruct (decide _) as [_|Hn]; [reflexivity | tauto].
  - destruct (decide _) as [_|Hn]; [reflexivity | tauto].
  - destruct (decide _) as [[?|?]|_]; [contradiction..|reflexivity].
Qed.

End FactoryTags.

(** ** Decorator: the whole nesting *)

Section DecoratorNesting.
Import Decorator.

Lemma append_cons (x : Ascii.ascii) (a b : string) :
  String x a +:+ b = String x (a +:+ b).
Proof. reflexivity. Qed.

Lemma append_assoc (a b c : string) : (a +:+ b) +:+ c = a +:+ (b +:+ c).
Proof.
  induction a as [|x a IH]; [reflexivity|].
  rewrite !append_cons. now f_equal.
Qed.

Lemma append_empty_r (a : string) : a +:+ "" = a.
Proof.
  induction a as [|x a IH]; [reflexivity|].
  rewrite append_cons. now f_equal.
Qed.

Lemma append_cancel_l (a b c : string) : a +:+ b = a +:+ c -> b = c.
Proof.
  induction a as [|x a IH]; [trivial|].
  rewrite !append_cons. intros H. injection H as H. now apply IH.
Qed.

Lemma join_snoc (parts : list string) (last : string) :
  join (parts ++ [last]) = join parts +:+ last.
Proof.
  unfold join. induction parts as [|p parts IH].
  - apply append_empty_r.
  - cbn [app foldr]. now rewrite IH, append_assoc.
Qed.

(** X5.  The cost of a coffee is the 50 of the espresso at its core plus 10
    for every [MilkDecorator] and 5 for every [SugarDecorator] around it,
    wherever they stand; the plain [CoffeeDecorator] adds nothing. *)
Theorem cost_closed_form (c : Coffee) :
  (cost c = 50 + 10 * Z.of_nat (milks c) + 5 * Z.of_nat (sugars c))%Z.
Proof. induction c; cbn [cost milks sugars]; lia. Qed.

(** X6.  The description of a coffee is "Espresso" followed by the labels of
    its wrappers from the innermost to the outermost. *)
Theorem description_closed_form (c : Coffee) :
  description c = "Espresso" +:+ join (labels c).
Proof.
  induction c as [|c IH|c IH|c IH]; cbn [description labels].
  - reflexivity.
  - exact IH.
  - now rewrite join_snoc, IH, append_assoc.
  - now rewrite join_snoc, IH, append_assoc.
Qed.

(** X7.  Milk and sugar may be added in either order for the same cost, but
    not for the same description: the description keeps the order of
    application. *)
Theorem decorators_commute_in_cost_only (c : Coffee) :
  cost (MilkDecorator (SugarDecorator c))
    = cost (SugarDecorator (MilkDecorator c)) /\
  description (MilkDecorator (SugarDecorator c))
    <> description (SugarDecorator (MilkDecorator c)).
Proof.
  split; [cbn [cost]; lia|].
  cbn [description]. rewrite !append_assoc.
  intros H. apply append_cancel_l in H. discriminate H.
Qed.

End DecoratorNesting.

(** ** Observer: duplicates, removal, sequences *)

Section ObserverSequences.
Import ObserverPattern.
Context {number : Type} `{!JSNumber number}.

Abbreviation world := (World (Stock number) (Call number)).

Lemma received_map_update_of (a : Ref) (p : number) (obs : list Observer) :
  length (received a (map (update_of p) obs)) = occurrences a obs.
Proof.
  unfold received, occurrences.
  induction obs as [|o rest IH]; [reflexivity|].
  cbn [map]. rewrite !filter_cons. cbn [update_of targets].
  destruct (decide (addr o = a)) as [Heq|Hne].
  - rewrite bool_decide_eq_true_2 by assumption.
    rewrite decide_True by exact I. cbn [length]. now rewrite IH.
  - rewrite bool_decide_eq_false_2 by assumption.
    rewrite decide_False by (intros []). exact IH.
Qed.

(** X8.  The stock keeps duplicates and notifies by subscription, not by
    observer: in one [setPrice], an observer receives exactly as many
    [update] calls as the number of times it stands in the subscriber
    list. *)
Theorem setPrice_calls_once_per_subscription
    (a : Ref) (newPrice : number) (w : world) :
  length (received a (calls (after (setPrice newPrice) w)))
    = length (received a (calls w)) + occurrences a (observers (store w)).
Proof.
  unfold after. rewrite setPrice_run. cbn [snd calls].
  now rewrite received_app, length_app, received_map_update_of.
Qed.

Lemma remove_all_unsubscribed (a : Ref) (obs : list Observer) :
  Forall (fun o => addr o ≠ a) obs -> remove_all a obs = obs.
Proof.
  induction 1 as [|o rest Ho _ IH]; [reflexivity|].
  cbn [remove_all]. rewrite bool_decide_eq_false_2 by assumption.
  now rewrite IH.
Qed.

(** X9.  Removing an observer that is not subscribed does nothing at all:
    the call returns and the world is as before. *)
Theorem removeObserver_unsubscribed_is_noop (o : Observer) (w : world) :
  Forall (fun x => addr x ≠ addr o) (observers (store w)) ->
  removeObserver o w = (Normal tt, w).
Proof.
  intros Habs. rewrite removeObserver_run, remove_all_unsubscribed by assumption.
  now destruct w as [[obs pr] out hist].
Qed.

Lemma occurrences_remove_all (a b : Ref) (obs : list Observer) :
  occurrences a (remove_all b obs)
    = if decide (a = b) then 0 else occurrences a obs.
Proof.
  unfold occurrences. induction obs as [|o rest IH].
  - now destruct (decide (a = b)).
  - cbn [remove_all]. destruct (decide (addr o = b)) as [Hb|Hb].
    + rewrite bool_decide_eq_true_2 by assumption. rewrite IH.
      destruct (decide (a = b)) as [Hab|Hab]; [reflexivity|].
      rewrite filter_cons. rewrite decide_False by congruence. reflexivity.
    + rewrite bool_decide_eq_false_2 by assumption.
      rewrite !filter_cons.
      destruct (decide (addr o = a)) as [Ha|Ha]; cbn [length]; rewrite IH;
        destruct (decide (a = b)); congruence.
Qed.

Lemma length_remove_all (a : Ref) (obs : list Observer) :
  length (remove_all a obs) + occurrences a obs = length obs.
Proof.
  unfold occurrences. induction obs as [|o rest IH]; [reflexivity|].
  cbn [remove_all]. rewrite filter_cons.
  destruct (decide (addr o = a)) as [Ha|Ha].
  - rewrite bool_decide_eq_true_2 by assumption. cbn [length]. lia.
  - rewrite bool_decide_eq_false_2 by assumption. cbn [length]. lia.
Qed.

(** X10.  [removeObserver o] shortens the subscriber list by exactly the
    number of times [o] stood in it; afterwards [o] stands in it no more,
    and every other observer as often as before. *)
Theorem removeObserver_accounts_for_duplicates
    (o : Observer) (a : Ref) (w : world) :
  length (observers (store (after (removeObserver o) w)))
    + occurrences (addr o) (observers (store w))
    = length (observers (store w)) /\
  occurrences a (observers (store (after (removeObserver o) w)))
    = if decide (a = addr o) then 0 else occurrences a (observers (store w)).
Proof.
  unfold after. rewrite removeObserver_run. cbn [snd store observers].
  split; [apply length_remove_all | apply occurrences_remove_all].
Qed.

Lemma remove_all_comm (a b : Ref) (obs : list Observer) :
  remove_all a (remove_all b obs) = remove_all b (remove_all a obs).
Proof.
  induction obs as [|o rest IH]; [reflexivity|].
  cbn [remove_all].
  destruct (bool_decide (addr o = b)) eqn:Hb,
           (bool_decide (addr o = a)) eqn:Ha;
    cbn [remove_all]; rewrite ?Ha, ?Hb, IH; reflexivity.
Qed.

Lemma remove_all_idemp (a : Ref) (obs : list Observer) :
  remove_all a (remove_all a obs) = remove_all a obs.
Proof.
  apply remove_all_unsubscribed, Forall_forall.
  intros x Hx. now apply elem_of_remove_all in Hx.
Qed.

(** X11.  Removing the same observer twice is removing it once, and two
    removals may be made in either order. *)
Theorem removeObserver_idempotent_and_commutes (o o' : Observer) (w : world) :
  (removeObserver o;; removeObserver o) w = removeObserver o w /\
  (removeObserver o;; removeObserver o') w
    = (removeObserver o';; removeObserver o) w.
Proof.
  unfold mbind, M_bind, bind. rewrite !removeObserver_run.
  cbn [store console calls observers price].
  split; [now rewrite remove_all_idemp | now rewrite remove_all_comm].
Qed.


(** X20.  In general, subscribing an observer and unsubscribing it again
    leaves the subscriber list without any occurrence of it: subscriptions
    it held before are lost as well. *)
Theorem resubscribed_observer_loses_earlier_subscriptions
    (o : Observer) (w : world) :
  observers (store (after (addObserver o;; removeObserver o) w))
    = remove_all (addr o) (observers (store w)).
Proof.
  unfold after, mbind, M_bind, bind.
  rewrite addObserver_run, removeObserver_run.
  cbn [snd store console calls observers price].
  rewrite remove_all_app. cbn [remove_all].
  rewrite bool_decide_eq_true_2 by reflexivity. apply app_nil_r.
Qed.

Lemma forEach_cons_perform (op : Op number) (rest : list (Op number))
    (w : world) :
  forEach (op :: rest) perform w
    = forEach rest perform (after (perform op) w).
Proof.
  destruct (perform_returns op w) as [[] Hret].
  unfold outcome, after in *. cbn [forEach]. unfold bind.
  destruct (perform op w) as [c w']. cbn [fst snd] in *. now subst c.
Qed.

(** X13.  Through any sequence of calls on a stock, every [update] that is
    made carries a price that some [setPrice] of the sequence has set:
    subscribing and unsubscribing notify nobody, and the price the stock
    was built with is never announced.  Each call prints one line. *)
Theorem notified_prices_were_set (ops : list (Op number)) (w : world) :
  exists made : list (Call number),
    calls (after (forEach ops perform) w) = calls w ++ made /\
    Forall (fun c => stockPrice_of c ∈ prices_set ops) made /\
    length (console (after (forEach ops perform) w))
      = length (console w) + length made.
Proof.
  revert w. induction ops as [|op rest IH]; intros w.
  - exists []. cbn. rewrite app_nil_r. repeat split; [constructor | lia].
  - unfold after. rewrite forEach_cons_perform.
    destruct (IH (after (perform op) w)) as (made & Hcalls & Hprices & Hlen).
    unfold after in *. rewrite Hcalls, Hlen. clear Hcalls Hlen IH.
    destruct op as [o|o|p]; cbn [perform].
    + rewrite addObserver_run. cbn [snd calls console].
      exists made. repeat split. exact Hprices.
    + rewrite removeObserver_run. cbn [snd calls console].
      exists made. repeat split. exact Hprices.
    + rewrite setPrice_run. cbn [snd calls console].
      exists (map (update_of p) (observers (store w)) ++ made).
      split; [now rewrite app_assoc|]. split.
      * apply Forall_app. split.
        -- apply Forall_forall. intros c Hc.
           apply list_elem_of_fmap in Hc as (o & -> & _).
           cbn. apply list_elem_of_here.
        -- eapply Forall_impl; [exact Hprices|].
           intros c Hc. cbn. now apply list_elem_of_further.
      * rewrite !length_app, !length_map. lia.
Qed.

(** X14.  After any sequence of calls the stock holds the price of the last
    [setPrice] of the sequence, or its previous price if there was none. *)
Theorem stored_price_is_last_set (ops : list (Op number)) (w : world) :
  price (store (after (forEach ops perform) w))
    = default (price (store w)) (last (prices_set ops)).
Proof.
  revert w. induction ops as [|op rest IH]; intros w; [reflexivity|].
  unfold after. rewrite forEach_cons_perform.
  fold (after (forEach rest perform) (after (perform op) w)). rewrite IH.
  unfold after. destruct op as [o|o|p]; cbn [perform].
  - now rewrite addObserver_run.
  - now rewrite removeObserver_run.
  - rewrite setPrice_run. cbn [snd store price].
    change (prices_set (SetPrice p :: rest)) with (p :: prices_set rest).
    rewrite last_cons. now destruct (last (prices_set rest)).
Qed.

End ObserverSequences.

Lemma removeObserver_unsubscribed_is_noop_witness :
  let investor1 := ObserverPattern.mkInvestor 0 "Investor 1" in
  let investor2 := ObserverPattern.mkInvestor 1 "Investor 2" in
  let w : World (ObserverPattern.Stock Z) (ObserverPattern.Call Z) :=
    mkWorld (ObserverPattern.mkStock [investor1; investor1] 100%Z) [] [] in
  Forall (fun x => ObserverPattern.addr x ≠ 1) [investor1; investor1] /\
  ObserverPattern.removeObserver investor2 w = (Normal tt, w).
Proof.
  intros investor1 investor2 w.
  assert (Habs : Forall (fun x => ObserverPattern.addr x ≠ 1)
                        [investor1; investor1]).
  { repeat constructor; discriminate. }
  split; [exact Habs|].
  exact (removeObserver_unsubscribed_is_noop investor2 w Habs).
Defined.


(** ** Command: sequences of presses and bindings *)

Section CommandSequences.
Import CommandPattern.

Lemma execute_run (c : Command) (w : World RemoteControl Call) :
  execute c w =
    (Normal tt,
     mkWorld (store w) (console w ++ [feedback c]) (calls w ++ [signal c])).
Proof. now destruct c. Qed.

(** X15.  With a command bound, pressing the button [n] times fires that
    command [n] times and nothing else: the light receives [n] calls, [n]
    lines are printed, and the binding is as before. *)
Theorem pressButton_repeats_bound_command
    (c : Command) (n : nat) (w : World RemoteControl Call) :
  command (store w) = Some c ->
  forEach (replicate n PressButton) perform w =
    (Normal tt,
     mkWorld (store w)
             (console w ++ replicate n (feedback c))
             (calls w ++ replicate n (signal c))).
Proof.
  revert w. induction n as [|n IH]; intros w Hc.
  - cbn. rewrite !app_nil_r. now destruct w.
  - cbn [replicate forEach perform]. unfold bind.
    rewrite (pressButton_bound c w Hc), execute_run.
    rewrite IH by exact Hc. cbn [store console calls].
    now rewrite <- !app_assoc.
Qed.

Lemma pressButton_repeats_bound_command_witness :
  let w := after (setCommand (LightOnCommand 7)) start in
  command (store w) = Some (LightOnCommand 7) /\
  forEach (replicate 3 PressButton) perform w =
    (Normal tt,
     mkWorld (store w)
             ["Light is ON"; "Light is ON"; "Light is ON"]
             [on_ 7; on_ 7; on_ 7]).
Proof.
  intros w. split; [reflexivity|].
  exact (pressButton_repeats_bound_command (LightOnCommand 7) 3 w eq_refl).
Defined.

(** X16.  Through any sequence of bindings and presses, each press fires
    the command bound most recently before it, and a binding by itself
    fires nothing; the sequence ends at a press that finds nothing bound. *)
Theorem presses_fire_latest_binding
    (ops : list Op) (w : World RemoteControl Call) :
  calls (after (forEach ops perform) w)
    = calls w ++ signals (command (store w)) ops.
Proof.
  revert w. induction ops as [|op rest IH]; intros w.
  - cbn. now rewrite app_nil_r.
  - unfold after in *. destruct op as [c|]; cbn [forEach perform signals].
    + unfold bind, setCommand, put. cbn [fst snd].
      rewrite IH. reflexivity.
    + unfold bind. destruct (command (store w)) as [c|] eqn:Hc.
      * rewrite (pressButton_bound c w Hc), execute_run.
        rewrite IH. cbn [store calls]. rewrite Hc. now rewrite <- app_assoc.
      * rewrite (pressButton_unbound w Hc). cbn. now rewrite app_nil_r.
Qed.

(** X17.  On a remote control with nothing bound, a sequence of calls fails
    exactly when it begins with a press: then it throws the [TypeError] at
    once and leaves the world as it was; any other sequence returns. *)
Theorem unbound_remote_fails_only_on_leading_press
    (ops : list Op) (w : World RemoteControl Call) :
  command (store w) = None ->
  match ops with
  | PressButton :: _ => forEach ops perform w = (Throw TypeError, w)
  | _ => returns (forEach ops perform) w
  end.
Proof.
  intros Hc. destruct ops as [|[c|] rest].
  - now exists tt.
  - unfold returns, outcome. cbn [forEach perform]. unfold bind.
    unfold setCommand at 1, put at 1.
    apply forEach_perform_returns_once_bound. discriminate.
  - cbn [forEach perform]. unfold bind.
    now rewrite (pressButton_unbound w Hc).
Qed.

Lemma unbound_remote_fails_only_on_leading_press_witness :
  command (store start) = None /\
  forEach [PressButton; SetCommand (LightOnCommand 0); PressButton]
          perform start
  = (Throw TypeError, start).
Proof.
  split; [reflexivity|].
  exact (unbound_remote_fails_only_on_leading_press
           [PressButton; SetCommand (LightOnCommand 0); PressButton]
           start eq_refl).
Defined.

End CommandSequences.

(** ** Adapter: runs of payments *)

Section AdapterRuns.
Import Adapter.
Context {number : Type} `{!JSNumber number} {St : Type}.

Lemma makePayment_run (payment : PaymentGateway * number)
    (w : World St (Call number)) :
  makePayment payment.1 payment.2 w =
    (Normal tt,
     mkWorld (store w) (console w ++ [receipt payment])
             (calls w ++ [native payment])).
Proof. now destruct payment as [[paypal|stripe] amount]. Qed.

(** X18.  A run of payments through the unified [makePayment] never fails
    and reaches the adaptees one call per payment, in order: [sendPayment]
    for a [PayPalAdapter], [chargePayment] for a [StripeAdapter], each on
    the wrapped object and with the amount of that payment; each prints its
    own line. *)
Theorem pay_all_routes_every_payment
    (payments : list (PaymentGateway * number)) (w : World St (Call number)) :
  pay_all payments w =
    (Normal tt,
     mkWorld (store w)
             (console w ++ map receipt payments)
             (calls w ++ map native payments)).
Proof.
  unfold pay_all. revert w.
  induction payments as [|payment rest IH]; intros w.
  - cbn. rewrite !app_nil_r. now destruct w.
  - cbn [forEach map]. unfold bind.
    rewrite makePayment_run, IH. cbn [store console calls].
    now rewrite <- !app_assoc.
Qed.

End AdapterRuns.
